(** * Shallow embedding of the interrupt-driven UART driver of scalog
    (src/src/uart_print.c): receive buffer, receive interrupt handler,
    [uart_read] with its compaction, the buffer reset, and the blocking
    transmit path. *)

From Stdlib Require Import Arith Lia List ZArith Strings.Byte.
Import ListNotations.

(** ** Data model *)

(** [UART_RX_BUF_SZ] *)
Definition UART_RX_BUF_SZ : nat := 1024.

(** The contents of the static array [s_uart_rx_buf], indexed by the
    offset from [buf_ptr_start]. *)
Definition rx_memory := nat -> Byte.byte.

(** [uart_irq_buf_type].  [buf_ptr_start] always points at
    [s_uart_rx_buf], so pointers are kept as offsets from it:
    [buf_ptr_cur] is [buf_ptr_cur - buf_ptr_start] in the C code.
    [buf_mem] is the array the pointers point into. *)
Record uart_irq_buf_type := mk_buf {
  buf_mem       : rx_memory;
  buf_ptr_cur   : nat;
  buf_sz        : nat;
  num_bytes     : nat;
  error_rx_full : bool;
  error_overrun : bool
}.

(** Return value of [uart_read]: the byte count, or one of the error
    codes of uart_print.h (its numeric values are not in the sources). *)
Inductive uart_read_ret :=
| Ret_count (n : nat)
| ERR_UART_RX_BUF_FULL
| ERR_UART_OVERRUN.

(** Truncation of the 16-bit [USART_ReceiveData] result to the [uint8_t]
    stored by [*buf_ptr_cur = USART_ReceiveData( USART1 )]. *)
Definition u8_of_u16 (d : Z) : Byte.byte :=
  match Byte.of_N (Z.to_N (Z.land d 255)) with
  | Some b => b
  | None => Byte.x00
  end.

(** Array update at one offset. *)
Definition mem_store (m : rx_memory) (i : nat) (b : Byte.byte) : rx_memory :=
  fun j => if Nat.eqb j i then b else m j.

(** [memmove( start, start + off, len )]: the bytes at [off, off+len) are
    copied to [0, len), as if through a temporary buffer. *)
Definition memmove_down (m : rx_memory) (off len : nat) : rx_memory :=
  fun j => if Nat.ltb j len then m (off + j) else m j.

(** [memcpy( buf, start, len )]: the bytes copied out to the caller. *)
Definition memcpy_out (m : rx_memory) (len : nat) : list Byte.byte :=
  map m (seq 0 len).

(** ** Receive side *)

(** State set up by [uart_setup_irq] (the array itself is zero-initialised
    static storage). *)
Definition uart_rx_init : uart_irq_buf_type :=
  {| buf_mem := fun _ => Byte.x00;
     buf_ptr_cur := 0;
     buf_sz := UART_RX_BUF_SZ;
     num_bytes := 0;
     error_rx_full := false;
     error_overrun := false |}.

(** [uart_irq_buf_reset] (runs with the receive interrupt disabled). *)
Definition uart_irq_buf_reset (s : uart_irq_buf_type) : uart_irq_buf_type :=
  {| buf_mem := buf_mem s;
     buf_ptr_cur := 0;
     buf_sz := buf_sz s;
     num_bytes := 0;
     error_rx_full := false;
     error_overrun := false |}.

(** [USART1_IRQHandler].  [rxne] is the result of
    [USART_GetITStatus( USART1, USART_IT_RXNE ) != RESET] and [data] the
    value [USART_ReceiveData( USART1 )] returns. *)
Definition USART1_IRQHandler (rxne : bool) (data : Z) (s : uart_irq_buf_type)
  : uart_irq_buf_type :=
  if rxne then
    if Nat.leb (buf_sz s) (num_bytes s) then
      {| buf_mem := buf_mem s;
         buf_ptr_cur := buf_ptr_cur s;
         buf_sz := buf_sz s;
         num_bytes := num_bytes s;
         error_rx_full := true;
         error_overrun := error_overrun s |}
    else
      {| buf_mem := mem_store (buf_mem s) (buf_ptr_cur s) (u8_of_u16 data);
         buf_ptr_cur := S (buf_ptr_cur s);
         buf_sz := buf_sz s;
         num_bytes := S (num_bytes s);
         error_rx_full := error_rx_full s;
         error_overrun := error_overrun s |}
  else s.

(** Result of a call of [uart_read]: return value, bytes written to the
    caller's buffer, new receive-buffer state. *)
Record read_result := mk_read_result {
  rr_ret    : uart_read_ret;
  rr_copied : list Byte.byte;
  rr_state  : uart_irq_buf_type
}.

(** Lines 90-114 of [uart_read]: the error checks, run with the receive
    interrupt still enabled.  [None] means both flags were clear and the
    call goes on to its critical section. *)
Definition uart_read_check (s : uart_irq_buf_type) : option read_result :=
  if error_rx_full s then
    Some (mk_read_result ERR_UART_RX_BUF_FULL [] (uart_irq_buf_reset s))
  else if error_overrun s then
    Some (mk_read_result ERR_UART_OVERRUN [] (uart_irq_buf_reset s))
  else None.

(** Lines 120-170 of [uart_read]: the critical section between
    [NVIC_DisableIRQ] and [NVIC_EnableIRQ], and the return. *)
Definition uart_read_body (bytes_req : nat) (s : uart_irq_buf_type)
  : read_result :=
  let '(bytes_ret, bytes_rem) :=
    if Nat.leb bytes_req (num_bytes s)
    then (bytes_req, num_bytes s - bytes_req)
    else (num_bytes s, 0) in
  let copied := memcpy_out (buf_mem s) bytes_ret in
  let mem' := memmove_down (buf_mem s) bytes_ret bytes_rem in
  mk_read_result (Ret_count bytes_ret) copied
    {| buf_mem := mem';
       buf_ptr_cur := 0;
       buf_sz := buf_sz s;
       num_bytes := bytes_rem;
       error_rx_full := error_rx_full s;
       error_overrun := error_overrun s |}.

(** [uart_read( buf, bytes_req )] run to completion. *)
Definition uart_read (bytes_req : nat) (s : uart_irq_buf_type) : read_result :=
  match uart_read_check s with
  | Some r => r
  | None => uart_read_body bytes_req s
  end.

(** ** Executions *)

(** Whole-call events: each handler invocation, [uart_read] call and
    reset runs to completion before the next one starts. *)
Inductive seq_event :=
| SE_irq (rxne : bool) (data : Z)
| SE_read (bytes_req : nat)
| SE_reset.

Definition seq_exec (e : seq_event) (s : uart_irq_buf_type)
  : uart_irq_buf_type * option uart_read_ret :=
  match e with
  | SE_irq rxne d => (USART1_IRQHandler rxne d s, None)
  | SE_read n => let r := uart_read n s in (rr_state r, Some (rr_ret r))
  | SE_reset => (uart_irq_buf_reset s, None)
  end.

(** Final state and the values returned by the [uart_read] calls, in
    order. *)
Fixpoint run_seq (es : list seq_event) (s : uart_irq_buf_type)
  : uart_irq_buf_type * list uart_read_ret :=
  match es with
  | [] => (s, [])
  | e :: es' =>
      let '(s1, o) := seq_exec e s in
      let '(s2, outs) := run_seq es' s1 in
      (s2, match o with Some r => r :: outs | None => outs end)
  end.

Definition reachable_seq (s : uart_irq_buf_type) : Prop :=
  exists es, fst (run_seq es uart_rx_init) = s.

(** Preemptive executions.  The receive interrupt is enabled everywhere in
    [uart_read] except inside [uart_irq_buf_reset] and the critical section
    of lines 120-165, so a handler invocation may fall between the error
    checks of lines 90-114 and [NVIC_DisableIRQ] (line 120).  The
    application is idle or inside such a [uart_read] call. *)
Inductive app_pc :=
| App_idle
| App_in_read (bytes_req : nat).

Record config := mk_config {
  cfg_buf : uart_irq_buf_type;
  cfg_pc  : app_pc
}.

Inductive sys_event :=
| PE_irq (rxne : bool) (data : Z)
| PE_read_begin (bytes_req : nat)   (** call, lines 90-114 *)
| PE_read_end                       (** lines 120-170 *)
| PE_reset.

(** An event that the application cannot perform in its current control
    state leaves the configuration unchanged. *)
Definition sys_exec (e : sys_event) (c : config) : config * option uart_read_ret :=
  match e, cfg_pc c with
  | PE_irq rxne d, pc => (mk_config (USART1_IRQHandler rxne d (cfg_buf c)) pc, None)
  | PE_read_begin n, App_idle =>
      match uart_read_check (cfg_buf c) with
      | Some r => (mk_config (rr_state r) App_idle, Some (rr_ret r))
      | None => (mk_config (cfg_buf c) (App_in_read n), None)
      end
  | PE_read_end, App_in_read n =>
      let r := uart_read_body n (cfg_buf c) in
      (mk_config (rr_state r) App_idle, Some (rr_ret r))
  | PE_reset, App_idle => (mk_config (uart_irq_buf_reset (cfg_buf c)) App_idle, None)
  | _, _ => (c, None)
  end.

Fixpoint run_sys (es : list sys_event) (c : config) : config * list uart_read_ret :=
  match es with
  | [] => (c, [])
  | e :: es' =>
      let '(c1, o) := sys_exec e c in
      let '(c2, outs) := run_sys es' c1 in
      (c2, match o with Some r => r :: outs | None => outs end)
  end.

Definition sys_init : config := mk_config uart_rx_init App_idle.

(** ** Transmit side *)

(** The bytes handed to [USART_SendData], oldest first. *)
Definition tx_log := list Byte.byte.

(** [uart_write_byte]: waits for TXE, then sends. *)
Definition uart_write_byte (b : Byte.byte) (tx : tx_log) : tx_log := tx ++ [b].

(** The loop of [uart_write] from index [i], with [fuel] iterations left. *)
Fixpoint uart_write_loop (buf : list Byte.byte) (i fuel : nat) (tx : tx_log) : tx_log :=
  match fuel with
  | O => tx
  | S f => uart_write_loop buf (S i) f (uart_write_byte (nth i buf Byte.x00) tx)
  end.

(** [uart_write( buf, bytes )]: return value and the transmit log. *)
Definition uart_write (buf : list Byte.byte) (bytes : nat) (tx : tx_log) : nat * tx_log :=
  (bytes, uart_write_loop buf 0 bytes tx).

(** [strlen] on a byte string. *)
Fixpoint strlen (msg : list Byte.byte) : nat :=
  match msg with
  | [] => 0
  | b :: t => if Byte.eqb b Byte.x00 then 0 else S (strlen t)
  end.

(** [uart_write_msg( msg )]: [strlen] returns a [size_t] that is passed as
    the [uint16_t] byte count, hence the reduction modulo 2^16. *)
Definition uart_write_msg (msg : list Byte.byte) (tx : tx_log) : tx_log :=
  let tx1 := snd (uart_write msg (strlen msg mod 2 ^ 16) tx) in
  uart_write_byte Byte.x0d (uart_write_byte Byte.x0a tx1).

(** ** The main loop of main.c *)

(** ASCII code of a decimal digit ['0' + d]. *)
Definition ascii_digit (d : nat) : Byte.byte :=
  match Byte.of_N (N.of_nat (48 + d)) with
  | Some b => b
  | None => Byte.x00
  end.

(** Decimal digits of [n], most significant first, in front of [acc]. *)
Fixpoint dec_digits (fuel n : nat) (acc : list Byte.byte) : list Byte.byte :=
  match fuel with
  | O => acc
  | S f =>
      let acc' := ascii_digit (n mod 10) :: acc in
      if Nat.ltb n 10 then acc' else dec_digits f (n / 10) acc'
  end.

(** [sprintf( cnt_str, "%d", count )] for the [uint16_t] [count] of [main]
    (at most five digits), with the terminating NUL. *)
Definition sprintf_d_u16 (count : nat) : list Byte.byte :=
  dec_digits 5 count [] ++ [Byte.x00].

(** [iters] passes of the [while( 1 )] loop of [main], entered with the
    counter [count] and the transmit log [tx]: each pass prints the counter
    with [uart_write_msg] and increments the [uint16_t] counter.  The LED
    and timer calls of the loop do not touch the UART and are left out. *)
Fixpoint main_loop (iters count : nat) (tx : tx_log) : tx_log :=
  match iters with
  | O => tx
  | S k => main_loop k ((count + 1) mod 2 ^ 16) (uart_write_msg (sprintf_d_u16 count) tx)
  end.

(** Handler invocations only, no [uart_read] or reset in between. *)
Fixpoint run_handlers (hs : list (bool * Z)) (s : uart_irq_buf_type) : uart_irq_buf_type :=
  match hs with
  | [] => s
  | (rxne, d) :: hs' => run_handlers hs' (USART1_IRQHandler rxne d s)
  end.

(** ** Concrete runs *)

Example sprintf_d_u16_samples :
  sprintf_d_u16 0 = [Byte.x30; Byte.x00] /\
  sprintf_d_u16 1234 = [Byte.x31; Byte.x32; Byte.x33; Byte.x34; Byte.x00] /\
  sprintf_d_u16 65535 = [Byte.x36; Byte.x35; Byte.x35; Byte.x33; Byte.x35; Byte.x00].
Proof. vm_compute. repeat split. Qed.



(** A buffer of capacity 8 holding the ASCII bytes A..F (Scenario C). *)
Definition scenario_c_state : uart_irq_buf_type :=
  run_handlers (map (fun d => (true, d)) [65; 66; 67; 68; 69; 70]%Z)
    {| buf_mem := fun _ => Byte.x00; buf_ptr_cur := 0; buf_sz := 8;
       num_bytes := 0; error_rx_full := false; error_overrun := false |}.

Example scenario_c_read :
  let r := uart_read 2 scenario_c_state in
  rr_ret r = Ret_count 2 /\ rr_copied r = [Byte.x41; Byte.x42] /\
  num_bytes (rr_state r) = 4 /\
  memcpy_out (buf_mem (rr_state r)) 4 = [Byte.x43; Byte.x44; Byte.x45; Byte.x46].
Proof. vm_compute. repeat split. Qed.

(** Scenario B: capacity 4, five bytes, then [read(4)]. *)
Example scenario_b :
  let s := run_handlers (map (fun d => (true, d)) [1; 2; 3; 4; 5]%Z)
             {| buf_mem := fun _ => Byte.x00; buf_ptr_cur := 0; buf_sz := 4;
                num_bytes := 0; error_rx_full := false; error_overrun := false |} in
  error_rx_full s = true /\ memcpy_out (buf_mem s) 4 = [Byte.x01; Byte.x02; Byte.x03; Byte.x04] /\
  let r := uart_read 4 s in
  rr_ret r = ERR_UART_RX_BUF_FULL /\ rr_copied r = [] /\ num_bytes (rr_state r) = 0 /\
  error_rx_full (rr_state r) = false.
Proof. vm_compute. repeat split. Qed.

Example scenario_d :
  uart_write [Byte.x68; Byte.x69] 2 [] = (2, [Byte.x68; Byte.x69]).
Proof. reflexivity. Qed.

(** ** Helper lemmas *)

Lemma uart_read_no_error (n : nat) (s : uart_irq_buf_type) :
  error_rx_full s = false -> error_overrun s = false ->
  uart_read n s = uart_read_body n s.
Proof. intros Hf Ho. unfold uart_read, uart_read_check. now rewrite Hf, Ho. Qed.

(** Count and remainder chosen by lines 125-140. *)
Lemma uart_read_body_fields (n : nat) (s : uart_irq_buf_type) :
  let k := Nat.min n (num_bytes s) in
  rr_ret (uart_read_body n s) = Ret_count k /\
  rr_copied (uart_read_body n s) = memcpy_out (buf_mem s) k /\
  buf_mem (rr_state (uart_read_body n s)) = memmove_down (buf_mem s) k (num_bytes s - k) /\
  num_bytes (rr_state (uart_read_body n s)) = num_bytes s - k /\
  buf_ptr_cur (rr_state (uart_read_body n s)) = 0 /\
  error_rx_full (rr_state (uart_read_body n s)) = error_rx_full s /\
  error_overrun (rr_state (uart_read_body n s)) = error_overrun s /\
  buf_sz (rr_state (uart_read_body n s)) = buf_sz s.
Proof.
  cbv zeta. unfold uart_read_body.
  destruct (Nat.leb n (num_bytes s)) eqn:Hle.
  - apply Nat.leb_le in Hle. rewrite Nat.min_l by exact Hle. simpl.
    repeat split.
  - apply Nat.leb_gt in Hle. rewrite Nat.min_r by lia.
    rewrite Nat.sub_diag. simpl. repeat split.
Qed.

Lemma uart_write_loop_shift (b : Byte.byte) (buf : list Byte.byte) (i f : nat) (tx : tx_log) :
  uart_write_loop (b :: buf) (S i) f tx = uart_write_loop buf i f tx.
Proof.
  revert i tx. induction f as [|f IH]; intros i tx; simpl; [reflexivity|].
  apply IH.
Qed.

Lemma uart_write_loop_prefix (buf : list Byte.byte) (f : nat) (tx : tx_log) :
  f <= length buf -> uart_write_loop buf 0 f tx = tx ++ firstn f buf.
Proof.
  revert f tx. induction buf as [|b buf IH]; intros f tx Hf.
  - simpl in Hf. assert (f = 0) as -> by lia. simpl. now rewrite app_nil_r.
  - destruct f as [|f]; simpl.
    + now rewrite app_nil_r.
    + rewrite uart_write_loop_shift. simpl in Hf.
      rewrite (IH f) by lia. unfold uart_write_byte. now rewrite <- app_assoc.
Qed.

(** Invariant of the whole-call executions. *)
Definition rx_inv (s : uart_irq_buf_type) : Prop :=
  buf_sz s = UART_RX_BUF_SZ /\ num_bytes s <= buf_sz s /\
  error_overrun s = false /\ (error_rx_full s = true -> num_bytes s = buf_sz s).

Lemma rx_inv_init : rx_inv uart_rx_init.
Proof. unfold rx_inv; simpl; repeat split; [lia | discriminate]. Qed.

Lemma rx_inv_reset (s : uart_irq_buf_type) :
  rx_inv s -> rx_inv (uart_irq_buf_reset s).
Proof.
  intros (Hsz & _ & _ & _). unfold rx_inv; simpl.
  repeat split; [exact Hsz | lia | discriminate].
Qed.

Lemma rx_inv_irq (rxne : bool) (d : Z) (s : uart_irq_buf_type) :
  rx_inv s -> rx_inv (USART1_IRQHandler rxne d s).
Proof.
  intros (Hsz & Hle & Ho & Hf). unfold USART1_IRQHandler.
  destruct rxne; [|unfold rx_inv; auto].
  destruct (Nat.leb_spec (buf_sz s) (num_bytes s)) as [Hfull|Hroom];
    unfold rx_inv; simpl; repeat split; auto; try lia.
  intros Hf'. specialize (Hf Hf'). lia.
Qed.

Lemma rx_inv_read (n : nat) (s : uart_irq_buf_type) :
  rx_inv s -> rx_inv (rr_state (uart_read n s)).
Proof.
  intros Hinv. pose proof Hinv as (Hsz & Hle & Ho & Hf).
  unfold uart_read, uart_read_check.
  destruct (error_rx_full s) eqn:Hfs; [now apply rx_inv_reset|].
  rewrite Ho.
  destruct (uart_read_body_fields n s) as (_ & _ & _ & Hn & _ & Hf' & Ho' & Hsz').
  unfold rx_inv. rewrite Hn, Hf', Ho', Hsz', Hfs.
  repeat split; [exact Hsz | lia | exact Ho | discriminate].
Qed.

Lemma run_seq_cons (e : seq_event) (es : list seq_event) (s : uart_irq_buf_type) :
  fst (run_seq (e :: es) s) = fst (run_seq es (fst (seq_exec e s))).
Proof.
  simpl. destruct (seq_exec e s) as [s1 o]. simpl.
  destruct (run_seq es s1) as [s2 outs]. reflexivity.
Qed.

Lemma rx_inv_run_seq (es : list seq_event) (s : uart_irq_buf_type) :
  rx_inv s -> rx_inv (fst (run_seq es s)).
Proof.
  revert s. induction es as [|e es IH]; intros s Hs; [exact Hs|].
  rewrite run_seq_cons. apply IH.
  destruct e; simpl; auto using rx_inv_irq, rx_inv_read, rx_inv_reset.
Qed.

Lemma rx_inv_run_handlers (hs : list (bool * Z)) (s : uart_irq_buf_type) :
  rx_inv s -> rx_inv (run_handlers hs s).
Proof.
  revert s. induction hs as [|[rxne d] hs IH]; intros s Hs; simpl; auto using rx_inv_irq.
Qed.

(** Once the buffer is full with [error_rx_full] set, handler invocations
    leave contents, count and cursor as they are. *)
Lemma run_handlers_full (hs : list (bool * Z)) (s : uart_irq_buf_type) :
  buf_sz s <= num_bytes s -> error_rx_full s = true ->
  num_bytes (run_handlers hs s) = num_bytes s /\
  buf_mem (run_handlers hs s) = buf_mem s /\
  buf_ptr_cur (run_handlers hs s) = buf_ptr_cur s /\
  error_rx_full (run_handlers hs s) = true.
Proof.
  revert s. induction hs as [|[rxne d] hs IH]; intros s Hle Hf; simpl; [auto|].
  unfold USART1_IRQHandler. destruct rxne; [|now apply IH].
  apply Nat.leb_le in Hle as Hle'. rewrite Hle'.
  specialize (IH (mk_buf (buf_mem s) (buf_ptr_cur s) (buf_sz s) (num_bytes s)
                   true (error_overrun s))).
  simpl in IH. exact (IH Hle eq_refl).
Qed.

(** [error_overrun] stays clear, and [ERR_UART_OVERRUN] is never returned. *)
Lemma sys_exec_no_overrun (e : sys_event) (c : config) :
  error_overrun (cfg_buf c) = false ->
  error_overrun (cfg_buf (fst (sys_exec e c))) = false /\
  snd (sys_exec e c) <> Some ERR_UART_OVERRUN.
Proof.
  intros Ho. destruct e as [rxne d|n| |]; simpl.
  - split; [|discriminate]. unfold USART1_IRQHandler.
    destruct rxne; [destruct (Nat.leb _ _)|]; exact Ho.
  - destruct (cfg_pc c); simpl; [|split; [exact Ho|discriminate]].
    unfold uart_read_check. rewrite Ho.
    destruct (error_rx_full (cfg_buf c)); simpl; split; (reflexivity || exact Ho || discriminate).
  - destruct (cfg_pc c) as [|n]; simpl; [split; [exact Ho|discriminate]|].
    destruct (uart_read_body_fields n (cfg_buf c)) as (Hr & _ & _ & _ & _ & _ & Ho' & _).
    rewrite Ho', Hr. split; [exact Ho|discriminate].
  - destruct (cfg_pc c); simpl; split; (reflexivity || exact Ho || discriminate).
Qed.

Lemma run_sys_no_overrun (es : list sys_event) (c : config) :
  error_overrun (cfg_buf c) = false ->
  error_overrun (cfg_buf (fst (run_sys es c))) = false /\
  ~ In ERR_UART_OVERRUN (snd (run_sys es c)).
Proof.
  revert c. induction es as [|e es IH]; intros c Ho; simpl; [auto|].
  destruct (sys_exec_no_overrun e c Ho) as [Ho1 Hout].
  destruct (sys_exec e c) as [c1 o] eqn:He. simpl in Ho1, Hout.
  destruct (IH c1 Ho1) as [IH1 IH2].
  destruct (run_sys es c1) as [c2 outs]. simpl in *.
  split; [exact IH1|].
  destruct o as [r|]; [|exact IH2].
  intros [Heq|Hin]; [subst; now apply Hout | now apply IH2].
Qed.

Lemma run_seq_no_overrun (es : list seq_event) (s : uart_irq_buf_type) :
  rx_inv s -> ~ In ERR_UART_OVERRUN (snd (run_seq es s)).
Proof.
  revert s. induction es as [|e es IH]; intros s Hs; simpl; [auto|].
  assert (Hs1 : rx_inv (fst (seq_exec e s)))
    by (destruct e; simpl; auto using rx_inv_irq, rx_inv_read, rx_inv_reset).
  assert (Hout : snd (seq_exec e s) <> Some ERR_UART_OVERRUN).
  { destruct e as [rxne d|n|]; simpl; try discriminate.
    destruct Hs as (_ & _ & Ho & _). unfold uart_read, uart_read_check. rewrite Ho.
    destruct (error_rx_full s); simpl; [discriminate|].
    rewrite (proj1 (uart_read_body_fields n s)). discriminate. }
  destruct (seq_exec e s) as [s1 o]. simpl in Hs1, Hout.
  specialize (IH s1 Hs1).
  destruct (run_seq es s1) as [s2 outs]. simpl in *.
  destruct o as [r|]; [|exact IH].
  intros [Heq|Hin]; [subst; now apply Hout | now apply IH].
Qed.

(** Contents of the first [k + r] array cells. *)
Lemma map_seq_offset (f : nat -> Byte.byte) (k r a : nat) :
  map (fun j => f (k + j)) (seq a r) = map f (seq (k + a) r).
Proof.
  revert a. induction r as [|r IH]; intros a; simpl; [reflexivity|].
  f_equal. rewrite IH. now rewrite Nat.add_succ_r.
Qed.

Lemma memcpy_out_add (m : rx_memory) (k r : nat) :
  memcpy_out m (k + r) = memcpy_out m k ++ map (fun j => m (k + j)) (seq 0 r).
Proof.
  unfold memcpy_out. rewrite seq_app, map_app, map_seq_offset.
  now rewrite Nat.add_0_r.
Qed.

Lemma length_memcpy_out (m : rx_memory) (k : nat) : length (memcpy_out m k) = k.
Proof. unfold memcpy_out. now rewrite length_map, length_seq. Qed.

(** For an error-free state, [uart_read( buf, n )] hands out the first [n]
    stored bytes and keeps the rest, in order, as the new contents. *)
Lemma uart_read_splits_contents (n : nat) (s : uart_irq_buf_type) :
  error_rx_full s = false -> error_overrun s = false ->
  rr_copied (uart_read n s) = firstn n (memcpy_out (buf_mem s) (num_bytes s)) /\
  memcpy_out (buf_mem (rr_state (uart_read n s))) (num_bytes (rr_state (uart_read n s)))
    = skipn n (memcpy_out (buf_mem s) (num_bytes s)).
Proof.
  intros Hf Ho. rewrite uart_read_no_error by assumption.
  destruct (uart_read_body_fields n s) as (_ & Hc & Hm & Hn & _).
  rewrite Hc, Hm, Hn.
  set (k := Nat.min n (num_bytes s)).
  assert (Hnum : num_bytes s = k + (num_bytes s - k)) by (subst k; lia).
  assert (Hrest : memcpy_out (memmove_down (buf_mem s) k (num_bytes s - k)) (num_bytes s - k)
                  = map (fun j => buf_mem s (k + j)) (seq 0 (num_bytes s - k))).
  { unfold memcpy_out, memmove_down. apply map_ext_in. intros j Hj.
    apply in_seq in Hj. destruct (Nat.ltb_spec j (num_bytes s - k)); [reflexivity|lia]. }
  rewrite Hrest.
  replace (memcpy_out (buf_mem s) (num_bytes s))
    with (memcpy_out (buf_mem s) (k + (num_bytes s - k))) by now rewrite <- Hnum.
  rewrite memcpy_out_add.
  rewrite firstn_app, skipn_app, length_memcpy_out.
  destruct (Nat.le_gt_cases n (num_bytes s)) as [Hle|Hgt].
  - assert (k = n) as Hk by (subst k; lia). rewrite Hk, Nat.sub_diag.
    rewrite firstn_all2 by (rewrite length_memcpy_out; lia).
    rewrite skipn_all2 by (rewrite length_memcpy_out; lia).
    simpl. now rewrite app_nil_r.
  - assert (k = num_bytes s) as Hk by (subst k; lia).
    rewrite Hk, Nat.sub_diag. simpl.
    rewrite firstn_all2 by (rewrite length_memcpy_out; lia).
    rewrite skipn_all2 by (rewrite length_memcpy_out; lia).
    rewrite firstn_nil, skipn_nil, app_nil_r. split; reflexivity.
Qed.

Lemma firstn_skipn_add {A : Type} (n m : nat) (l : list A) :
  firstn n l ++ firstn m (skipn n l) = firstn (n + m) l.
Proof.
  revert l. induction n as [|n IH]; intros l; simpl; [reflexivity|].
  destruct l as [|x l]; simpl; [now destruct m|]. f_equal. apply IH.
Qed.

(** Storing at offset [n] extends the contents of the first [n] cells. *)
Lemma memcpy_out_store (m : rx_memory) (n : nat) (b : Byte.byte) :
  memcpy_out (mem_store m n b) (S n) = memcpy_out m n ++ [b].
Proof.
  unfold memcpy_out. rewrite seq_S, map_app. simpl.
  unfold mem_store at 2. rewrite Nat.eqb_refl. f_equal.
  apply map_ext_in. intros j Hj. apply in_seq in Hj. unfold mem_store.
  destruct (Nat.eqb_spec j n); [lia|reflexivity].
Qed.

Lemma run_handlers_buf_sz (hs : list (bool * Z)) (s : uart_irq_buf_type) :
  buf_sz (run_handlers hs s) = buf_sz s.
Proof.
  revert s. induction hs as [|[rxne d] hs IH]; intros s; simpl; [reflexivity|].
  rewrite IH. unfold USART1_IRQHandler.
  destruct rxne; [destruct (Nat.leb _ _)|]; reflexivity.
Qed.

(** Bounds kept by every preemptive run: the cursor never passes the
    count and the count never passes the capacity of [s_uart_rx_buf]. *)
Definition bounds_inv (b : uart_irq_buf_type) : Prop :=
  buf_ptr_cur b <= num_bytes b /\ num_bytes b <= buf_sz b /\ buf_sz b = UART_RX_BUF_SZ.

Lemma bounds_inv_sys_exec (e : sys_event) (c : config) :
  bounds_inv (cfg_buf c) -> bounds_inv (cfg_buf (fst (sys_exec e c))).
Proof.
  intros (Hc & Hn & Hsz).
  destruct e as [rxne d|n| |]; simpl.
  - unfold USART1_IRQHandler. destruct rxne; [|unfold bounds_inv; auto].
    destruct (Nat.leb_spec (buf_sz (cfg_buf c)) (num_bytes (cfg_buf c)));
      unfold bounds_inv; simpl; repeat split; auto; lia.
  - destruct (cfg_pc c); simpl; [|unfold bounds_inv; auto].
    unfold uart_read_check.
    destruct (error_rx_full (cfg_buf c)); [|destruct (error_overrun (cfg_buf c))];
      unfold bounds_inv; simpl; repeat split; auto; lia.
  - destruct (cfg_pc c) as [|n]; simpl; [unfold bounds_inv; auto|].
    destruct (uart_read_body_fields n (cfg_buf c)) as (_ & _ & _ & Hn' & Hc' & _ & _ & Hsz').
    unfold bounds_inv. rewrite Hn', Hc', Hsz'. repeat split; lia.
  - destruct (cfg_pc c); simpl; unfold bounds_inv; simpl; repeat split; auto; lia.
Qed.

Lemma run_sys_cons (e : sys_event) (es : list sys_event) (c : config) :
  fst (run_sys (e :: es) c) = fst (run_sys es (fst (sys_exec e c))).
Proof.
  simpl. destruct (sys_exec e c) as [c1 o]. simpl.
  destruct (run_sys es c1) as [c2 outs]. reflexivity.
Qed.

Lemma strlen_nul_terminated (msg : list Byte.byte) :
  Forall (fun b => b <> Byte.x00) msg -> strlen (msg ++ [Byte.x00]) = length msg.
Proof.
  induction 1 as [|b msg Hb _ IH]; [reflexivity|]. simpl.
  destruct (Byte.eqb b Byte.x00) eqn:E.
  - apply Byte.byte_dec_bl in E. contradiction.
  - now rewrite IH.
Qed.

Lemma ascii_digit_not_nul (n : nat) : ascii_digit (n mod 10) <> Byte.x00.
Proof.
  assert (H : n mod 10 < 10) by (apply Nat.mod_upper_bound; discriminate).
  remember (n mod 10) as r eqn:Hr. clear Hr.
  do 10 (destruct r as [|r]; [vm_compute; discriminate|]). lia.
Qed.

Lemma dec_digits_not_nul (fuel n : nat) (acc : list Byte.byte) :
  Forall (fun b => b <> Byte.x00) acc ->
  Forall (fun b => b <> Byte.x00) (dec_digits fuel n acc).
Proof.
  revert n acc. induction fuel as [|f IH]; intros n acc Hacc; simpl; [exact Hacc|].
  assert (Hacc' : Forall (fun b => b <> Byte.x00) (ascii_digit (n mod 10) :: acc))
    by (constructor; [apply ascii_digit_not_nul | exact Hacc]).
  destruct (Nat.ltb n 10); [exact Hacc' | now apply IH].
Qed.

Lemma length_dec_digits (fuel n : nat) (acc : list Byte.byte) :
  length (dec_digits fuel n acc) <= fuel + length acc.
Proof.
  revert n acc. induction fuel as [|f IH]; intros n acc; simpl; [lia|].
  destruct (Nat.ltb n 10); simpl; [lia|].
  specialize (IH (n / 10) (ascii_digit (n mod 10) :: acc)). simpl in IH. lia.
Qed.

(** ** Claims *)

(** C3: if [error_rx_full] is set when [uart_read] is called, then for any
    [bytes_req] the call resets the buffer ([num_bytes = 0], cursor at the
    start, both flags clear), returns [ERR_UART_RX_BUF_FULL] and copies no
    byte to the caller. *)
Theorem uart_read_rx_full_resets (n : nat) (s : uart_irq_buf_type) :
  error_rx_full s = true ->
  let r := uart_read n s in
  rr_ret r = ERR_UART_RX_BUF_FULL /\ rr_copied r = [] /\
  num_bytes (rr_state r) = 0 /\ buf_ptr_cur (rr_state r) = 0 /\
  error_rx_full (rr_state r) = false /\ error_overrun (rr_state r) = false.
Proof.
  intros Hf. unfold uart_read, uart_read_check. rewrite Hf. simpl.
  repeat split.
Qed.

Lemma uart_read_rx_full_resets_witness :
  error_rx_full (USART1_IRQHandler true 5 (run_handlers (map (fun d => (true, d)) [1; 2; 3; 4]%Z)
     {| buf_mem := fun _ => Byte.x00; buf_ptr_cur := 0; buf_sz := 4;
        num_bytes := 0; error_rx_full := false; error_overrun := false |})) = true /\
  rr_ret (uart_read 4 (USART1_IRQHandler true 5 (run_handlers (map (fun d => (true, d)) [1; 2; 3; 4]%Z)
     {| buf_mem := fun _ => Byte.x00; buf_ptr_cur := 0; buf_sz := 4;
        num_bytes := 0; error_rx_full := false; error_overrun := false |}))) = ERR_UART_RX_BUF_FULL.
Proof.
  split; [vm_compute; reflexivity|].
  apply (uart_read_rx_full_resets 4); vm_compute; reflexivity.
Defined.

(** C5: for an error-free state and any [bytes_req], [uart_read] copies out
    [k] bytes, and the bytes that were at offsets [k, num_bytes) are
    afterwards at offsets [0, num_bytes - k), byte for byte. *)
Theorem uart_read_compacts (n : nat) (s : uart_irq_buf_type) :
  error_rx_full s = false -> error_overrun s = false ->
  exists k, rr_ret (uart_read n s) = Ret_count k /\
    num_bytes (rr_state (uart_read n s)) = num_bytes s - k /\
    forall i, i < num_bytes s - k ->
      buf_mem (rr_state (uart_read n s)) i = buf_mem s (k + i).
Proof.
  intros Hf Ho. rewrite uart_read_no_error by assumption.
  destruct (uart_read_body_fields n s) as (Hr & _ & Hm & Hn & _).
  exists (Nat.min n (num_bytes s)). split; [exact Hr|]. split; [exact Hn|].
  intros i Hi. rewrite Hm. unfold memmove_down.
  destruct (Nat.ltb_spec i (num_bytes s - Nat.min n (num_bytes s))); [reflexivity|lia].
Qed.

Lemma uart_read_compacts_witness :
  exists k, rr_ret (uart_read 2 scenario_c_state) = Ret_count k /\
    num_bytes (rr_state (uart_read 2 scenario_c_state)) = num_bytes scenario_c_state - k /\
    forall i, i < num_bytes scenario_c_state - k ->
      buf_mem (rr_state (uart_read 2 scenario_c_state)) i = buf_mem scenario_c_state (k + i).
Proof. apply uart_read_compacts; vm_compute; reflexivity. Defined.

(** C6: for an error-free state, [uart_read] returns [min bytes_req num_bytes],
    copies that many bytes and lowers [num_bytes] by it; with
    [bytes_req >= num_bytes] it returns [num_bytes] and empties the buffer. *)
Theorem uart_read_count (n : nat) (s : uart_irq_buf_type) :
  error_rx_full s = false -> error_overrun s = false ->
  rr_ret (uart_read n s) = Ret_count (Nat.min n (num_bytes s)) /\
  length (rr_copied (uart_read n s)) = Nat.min n (num_bytes s) /\
  num_bytes (rr_state (uart_read n s)) = num_bytes s - Nat.min n (num_bytes s) /\
  (num_bytes s <= n ->
   rr_ret (uart_read n s) = Ret_count (num_bytes s) /\
   num_bytes (rr_state (uart_read n s)) = 0).
Proof.
  intros Hf Ho. rewrite uart_read_no_error by assumption.
  destruct (uart_read_body_fields n s) as (Hr & Hc & _ & Hn & _).
  rewrite Hr, Hc, Hn. unfold memcpy_out. rewrite length_map, length_seq.
  split; [reflexivity|]. split; [reflexivity|]. split; [reflexivity|].
  intros Hle. rewrite Nat.min_r by exact Hle. split; [reflexivity | lia].
Qed.

Lemma uart_read_count_witness :
  rr_ret (uart_read 10 scenario_c_state) = Ret_count 6 /\
  num_bytes (rr_state (uart_read 10 scenario_c_state)) = 0.
Proof.
  refine (proj2 (proj2 (proj2 (uart_read_count 10 scenario_c_state _ _))) _);
    vm_compute; first [reflexivity | lia].
Defined.

(** C9: [uart_write( buf, bytes )] sends exactly the first [bytes] bytes of
    [buf], one [uart_write_byte] each and in order, and returns [bytes]. *)
Theorem uart_write_sends_all (buf : list Byte.byte) (bytes : nat) (tx : tx_log) :
  bytes <= length buf ->
  uart_write buf bytes tx = (bytes, tx ++ firstn bytes buf).
Proof. intros H. unfold uart_write. now rewrite uart_write_loop_prefix. Qed.

Lemma uart_write_sends_all_witness :
  uart_write [Byte.x68; Byte.x69] 2 [] = (2, [] ++ firstn 2 [Byte.x68; Byte.x69]).
Proof. apply uart_write_sends_all. simpl. lia. Defined.

(** C10: a handler invocation for a received byte while
    [num_bytes >= buf_sz] only sets [error_rx_full]: contents, [num_bytes],
    [buf_ptr_cur], [buf_sz] and [error_overrun] are unchanged. *)
Theorem irq_full_only_sets_flag (d : Z) (s : uart_irq_buf_type) :
  buf_sz s <= num_bytes s ->
  USART1_IRQHandler true d s =
  {| buf_mem := buf_mem s; buf_ptr_cur := buf_ptr_cur s; buf_sz := buf_sz s;
     num_bytes := num_bytes s; error_rx_full := true; error_overrun := error_overrun s |}.
Proof.
  intros H. unfold USART1_IRQHandler.
  apply Nat.leb_le in H. now rewrite H.
Qed.

Lemma irq_full_only_sets_flag_witness :
  buf_sz (run_handlers [(true, 71%Z); (true, 72%Z)] scenario_c_state)
    <= num_bytes (run_handlers [(true, 71%Z); (true, 72%Z)] scenario_c_state) /\
  USART1_IRQHandler true 73 (run_handlers [(true, 71%Z); (true, 72%Z)] scenario_c_state) =
  {| buf_mem := buf_mem (run_handlers [(true, 71%Z); (true, 72%Z)] scenario_c_state);
     buf_ptr_cur := buf_ptr_cur (run_handlers [(true, 71%Z); (true, 72%Z)] scenario_c_state);
     buf_sz := buf_sz (run_handlers [(true, 71%Z); (true, 72%Z)] scenario_c_state);
     num_bytes := num_bytes (run_handlers [(true, 71%Z); (true, 72%Z)] scenario_c_state);
     error_rx_full := true;
     error_overrun := error_overrun (run_handlers [(true, 71%Z); (true, 72%Z)] scenario_c_state) |}.
Proof.
  split; [vm_compute; lia|].
  apply irq_full_only_sets_flag. vm_compute. lia.
Defined.

(** C1: after a partial [uart_read] of Scenario C (capacity 8, A..F stored,
    [read(2)]), [buf_ptr_cur] is back at the start of the buffer although
    four bytes remain ([num_bytes = 4]).  The next received byte ('G') is
    therefore written over 'C' at offset 0, and a following [read(5)]
    returns G D E F E: 'C' is lost and a stale 'E' is returned. *)
Theorem uart_read_cursor_reset_overwrites :
  let s1 := rr_state (uart_read 2 scenario_c_state) in
  buf_ptr_cur s1 = 0 /\ num_bytes s1 = 4 /\
  rr_copied (uart_read 5 (USART1_IRQHandler true 71 s1)) =
    [Byte.x47; Byte.x44; Byte.x45; Byte.x46; Byte.x45].
Proof. vm_compute. repeat split. Qed.

(** Events of a preemptive run: the buffer is filled to capacity, then a
    byte arrives while [uart_read( buf, 1 )] is between its error checks
    and [NVIC_DisableIRQ]. *)
Definition race_events : list sys_event :=
  repeat (PE_irq true 65) UART_RX_BUF_SZ ++
  [PE_read_begin 1; PE_irq true 66; PE_read_end].

(** C2, as stated: in every reachable configuration with an error flag set,
    a further handler invocation leaves [num_bytes] unchanged.  It fails:
    after [race_events] the read has consumed one byte while
    [error_rx_full] stayed set, and the next received byte is stored. *)
Theorem irq_error_flag_blocks_counterexample :
  ~ (forall (es : list sys_event) (d : Z),
       let b := cfg_buf (fst (run_sys es sys_init)) in
       (error_rx_full b = true \/ error_overrun b = true) ->
       num_bytes (USART1_IRQHandler true d b) = num_bytes b).
Proof.
  intros H. specialize (H race_events 67%Z). cbv zeta in H.
  assert (Hf : error_rx_full (cfg_buf (fst (run_sys race_events sys_init))) = true)
    by (vm_compute; reflexivity).
  assert (Hn : Nat.eqb (num_bytes (USART1_IRQHandler true 67
                 (cfg_buf (fst (run_sys race_events sys_init)))))
                 (num_bytes (cfg_buf (fst (run_sys race_events sys_init)))) = false)
    by (vm_compute; reflexivity).
  rewrite (H (or_introl Hf)), Nat.eqb_refl in Hn. discriminate.
Qed.

(** C2, amended: when each handler invocation and each [uart_read] call
    runs to completion (no byte arrives between the error checks of
    [uart_read] and its [NVIC_DisableIRQ]), every reachable state with an
    error flag set has [error_rx_full] set and a full buffer, so later
    handler invocations store nothing: contents, [num_bytes] and
    [buf_ptr_cur] stay as they are until a [uart_read] or reset. *)
Theorem irq_error_flag_blocks_seq (es : list seq_event) (hs : list (bool * Z)) :
  let s := fst (run_seq es uart_rx_init) in
  (error_rx_full s = true \/ error_overrun s = true) ->
  num_bytes (run_handlers hs s) = num_bytes s /\
  buf_mem (run_handlers hs s) = buf_mem s /\
  buf_ptr_cur (run_handlers hs s) = buf_ptr_cur s /\
  error_rx_full (run_handlers hs s) = true.
Proof.
  cbv zeta. intros Hflag.
  destruct (rx_inv_run_seq es uart_rx_init rx_inv_init) as (_ & Hle & Ho & Hf).
  destruct Hflag as [Hfull|Hovr]; [|congruence].
  apply run_handlers_full; [rewrite (Hf Hfull); lia | exact Hfull].
Qed.

Lemma irq_error_flag_blocks_seq_witness :
  num_bytes (run_handlers [(true, 1%Z); (true, 2%Z)]
     (fst (run_seq (repeat (SE_irq true 65) (S UART_RX_BUF_SZ)) uart_rx_init))) =
  num_bytes (fst (run_seq (repeat (SE_irq true 65) (S UART_RX_BUF_SZ)) uart_rx_init)) /\
  buf_mem (run_handlers [(true, 1%Z); (true, 2%Z)]
     (fst (run_seq (repeat (SE_irq true 65) (S UART_RX_BUF_SZ)) uart_rx_init))) =
  buf_mem (fst (run_seq (repeat (SE_irq true 65) (S UART_RX_BUF_SZ)) uart_rx_init)) /\
  buf_ptr_cur (run_handlers [(true, 1%Z); (true, 2%Z)]
     (fst (run_seq (repeat (SE_irq true 65) (S UART_RX_BUF_SZ)) uart_rx_init))) =
  buf_ptr_cur (fst (run_seq (repeat (SE_irq true 65) (S UART_RX_BUF_SZ)) uart_rx_init)) /\
  error_rx_full (run_handlers [(true, 1%Z); (true, 2%Z)]
     (fst (run_seq (repeat (SE_irq true 65) (S UART_RX_BUF_SZ)) uart_rx_init))) = true.
Proof.
  apply (irq_error_flag_blocks_seq (repeat (SE_irq true 65) (S UART_RX_BUF_SZ))
           [(true, 1%Z); (true, 2%Z)]).
  left. vm_compute. reflexivity.
Defined.

(** C4: along any sequence of handler invocations from the initial state,
    [num_bytes <= buf_sz]; and a received byte arriving with
    [num_bytes = buf_sz] sets [error_rx_full] without storing the byte or
    changing [num_bytes]. *)
Theorem irq_capacity_bound :
  (forall hs : list (bool * Z),
     num_bytes (run_handlers hs uart_rx_init) <= buf_sz (run_handlers hs uart_rx_init)) /\
  (forall (d : Z) (s : uart_irq_buf_type),
     num_bytes s = buf_sz s ->
     error_rx_full (USART1_IRQHandler true d s) = true /\
     num_bytes (USART1_IRQHandler true d s) = num_bytes s /\
     buf_mem (USART1_IRQHandler true d s) = buf_mem s /\
     buf_ptr_cur (USART1_IRQHandler true d s) = buf_ptr_cur s).
Proof.
  split.
  - intros hs. apply (rx_inv_run_handlers hs uart_rx_init rx_inv_init).
  - intros d s Heq. unfold USART1_IRQHandler.
    replace (Nat.leb (buf_sz s) (num_bytes s)) with true
      by (symmetry; apply Nat.leb_le; lia).
    simpl. auto.
Qed.

Lemma irq_capacity_bound_witness :
  error_rx_full (USART1_IRQHandler true 5
     (run_handlers (map (fun d => (true, d)) [1; 2; 3; 4]%Z)
       {| buf_mem := fun _ => Byte.x00; buf_ptr_cur := 0; buf_sz := 4;
          num_bytes := 0; error_rx_full := false; error_overrun := false |})) = true /\
  num_bytes (USART1_IRQHandler true 5
     (run_handlers (map (fun d => (true, d)) [1; 2; 3; 4]%Z)
       {| buf_mem := fun _ => Byte.x00; buf_ptr_cur := 0; buf_sz := 4;
          num_bytes := 0; error_rx_full := false; error_overrun := false |})) =
  num_bytes (run_handlers (map (fun d => (true, d)) [1; 2; 3; 4]%Z)
       {| buf_mem := fun _ => Byte.x00; buf_ptr_cur := 0; buf_sz := 4;
          num_bytes := 0; error_rx_full := false; error_overrun := false |}) /\
  buf_mem (USART1_IRQHandler true 5
     (run_handlers (map (fun d => (true, d)) [1; 2; 3; 4]%Z)
       {| buf_mem := fun _ => Byte.x00; buf_ptr_cur := 0; buf_sz := 4;
          num_bytes := 0; error_rx_full := false; error_overrun := false |})) =
  buf_mem (run_handlers (map (fun d => (true, d)) [1; 2; 3; 4]%Z)
       {| buf_mem := fun _ => Byte.x00; buf_ptr_cur := 0; buf_sz := 4;
          num_bytes := 0; error_rx_full := false; error_overrun := false |}) /\
  buf_ptr_cur (USART1_IRQHandler true 5
     (run_handlers (map (fun d => (true, d)) [1; 2; 3; 4]%Z)
       {| buf_mem := fun _ => Byte.x00; buf_ptr_cur := 0; buf_sz := 4;
          num_bytes := 0; error_rx_full := false; error_overrun := false |})) =
  buf_ptr_cur (run_handlers (map (fun d => (true, d)) [1; 2; 3; 4]%Z)
       {| buf_mem := fun _ => Byte.x00; buf_ptr_cur := 0; buf_sz := 4;
          num_bytes := 0; error_rx_full := false; error_overrun := false |}).
Proof. apply (proj2 irq_capacity_bound). vm_compute. reflexivity. Defined.

(** C7: from the initial state, no sequence of handler invocations,
    [uart_read] calls and resets sets [error_overrun], and no [uart_read]
    returns [ERR_UART_OVERRUN]; this holds for whole-call runs and for
    preemptive runs alike. *)
Theorem overrun_never_raised :
  (forall es : list seq_event,
     error_overrun (fst (run_seq es uart_rx_init)) = false /\
     ~ In ERR_UART_OVERRUN (snd (run_seq es uart_rx_init))) /\
  (forall es : list sys_event,
     error_overrun (cfg_buf (fst (run_sys es sys_init))) = false /\
     ~ In ERR_UART_OVERRUN (snd (run_sys es sys_init))).
Proof.
  split; intros es.
  - split.
    + apply (rx_inv_run_seq es uart_rx_init rx_inv_init).
    + apply run_seq_no_overrun, rx_inv_init.
  - apply run_sys_no_overrun. reflexivity.
Qed.

(** C8: [uart_write_msg] on the string "hi" sends 'h', 'i', then '\n'
    (0x0A) and only then '\r' (0x0D): the terminator goes out as LF CR. *)
Theorem uart_write_msg_hi :
  uart_write_msg [Byte.x68; Byte.x69; Byte.x00] [] =
    [Byte.x68; Byte.x69; Byte.x0a; Byte.x0d].
Proof. vm_compute. reflexivity. Qed.

(** ** Further properties of the driver *)

(** Handler invocations for received bytes, starting from a state whose
    cursor equals its count, store the low 8 bits of each byte in arrival
    order right after the stored ones, up to the capacity; bytes arriving
    once the buffer is full are dropped. *)
Theorem irq_appends_in_order (ds : list Z) (s : uart_irq_buf_type) :
  buf_ptr_cur s = num_bytes s -> num_bytes s <= buf_sz s ->
  num_bytes (run_handlers (map (fun d => (true, d)) ds) s)
    = Nat.min (buf_sz s) (num_bytes s + length ds) /\
  buf_ptr_cur (run_handlers (map (fun d => (true, d)) ds) s)
    = num_bytes (run_handlers (map (fun d => (true, d)) ds) s) /\
  memcpy_out (buf_mem (run_handlers (map (fun d => (true, d)) ds) s))
             (num_bytes (run_handlers (map (fun d => (true, d)) ds) s))
    = memcpy_out (buf_mem s) (num_bytes s)
        ++ firstn (buf_sz s - num_bytes s) (map u8_of_u16 ds).
Proof.
  revert s. induction ds as [|d ds IH]; intros s Hc Hle.
  - simpl. rewrite Nat.add_0_r, Nat.min_r by exact Hle.
    rewrite firstn_nil, app_nil_r. auto.
  - simpl. unfold USART1_IRQHandler.
    destruct (Nat.leb_spec (buf_sz s) (num_bytes s)) as [Hfull|Hroom].
    + match goal with |- context [run_handlers ?hs ?t] =>
        destruct (run_handlers_full hs t) as (H1 & H2 & H3 & _) end;
        simpl; [lia | reflexivity |].
      rewrite H3, H2, H1. simpl.
      replace (buf_sz s - num_bytes s) with 0 by lia. simpl.
      rewrite app_nil_r. repeat split; [lia | exact Hc].
    + match goal with |- context [run_handlers ?hs ?t] =>
        destruct (IH t) as (H1 & H2 & H3) end; simpl; [now rewrite Hc | lia |].
      rewrite H3, H2, H1. cbn [buf_mem num_bytes buf_sz buf_ptr_cur].
      rewrite Hc, memcpy_out_store.
      repeat split; [lia|].
      replace (buf_sz s - num_bytes s) with (S (buf_sz s - S (num_bytes s))) by lia.
      simpl. now rewrite <- app_assoc.
Qed.

Lemma irq_appends_in_order_witness :
  num_bytes (run_handlers (map (fun d => (true, d)) [65; 66; 67]%Z) uart_rx_init)
    = Nat.min (buf_sz uart_rx_init) (num_bytes uart_rx_init + length [65; 66; 67]%Z) /\
  buf_ptr_cur (run_handlers (map (fun d => (true, d)) [65; 66; 67]%Z) uart_rx_init)
    = num_bytes (run_handlers (map (fun d => (true, d)) [65; 66; 67]%Z) uart_rx_init) /\
  memcpy_out (buf_mem (run_handlers (map (fun d => (true, d)) [65; 66; 67]%Z) uart_rx_init))
             (num_bytes (run_handlers (map (fun d => (true, d)) [65; 66; 67]%Z) uart_rx_init))
    = memcpy_out (buf_mem uart_rx_init) (num_bytes uart_rx_init)
        ++ firstn (buf_sz uart_rx_init - num_bytes uart_rx_init) (map u8_of_u16 [65; 66; 67]%Z).
Proof. apply irq_appends_in_order; vm_compute; [reflexivity | lia]. Defined.

(** On an error-free state, the bytes [uart_read] copies out followed by
    the bytes it keeps are exactly the bytes stored before the call. *)
Theorem uart_read_no_loss (n : nat) (s : uart_irq_buf_type) :
  error_rx_full s = false -> error_overrun s = false ->
  rr_copied (uart_read n s)
    ++ memcpy_out (buf_mem (rr_state (uart_read n s))) (num_bytes (rr_state (uart_read n s)))
  = memcpy_out (buf_mem s) (num_bytes s).
Proof.
  intros Hf Ho. destruct (uart_read_splits_contents n s Hf Ho) as [H1 H2].
  rewrite H1, H2. apply firstn_skipn.
Qed.

Lemma uart_read_no_loss_witness :
  rr_copied (uart_read 2 scenario_c_state)
    ++ memcpy_out (buf_mem (rr_state (uart_read 2 scenario_c_state)))
                  (num_bytes (rr_state (uart_read 2 scenario_c_state)))
  = memcpy_out (buf_mem scenario_c_state) (num_bytes scenario_c_state).
Proof. apply uart_read_no_loss; vm_compute; reflexivity. Defined.

(** Two [uart_read] calls with no byte received in between return, one
    after the other, the first [n + m] stored bytes in order. *)
Theorem uart_read_twice (n m : nat) (s : uart_irq_buf_type) :
  error_rx_full s = false -> error_overrun s = false ->
  rr_copied (uart_read n s) ++ rr_copied (uart_read m (rr_state (uart_read n s)))
  = firstn (n + m) (memcpy_out (buf_mem s) (num_bytes s)).
Proof.
  intros Hf Ho. destruct (uart_read_splits_contents n s Hf Ho) as [H1 H2].
  assert (Hf' : error_rx_full (rr_state (uart_read n s)) = false /\
                error_overrun (rr_state (uart_read n s)) = false).
  { rewrite uart_read_no_error by assumption.
    destruct (uart_read_body_fields n s) as (_ & _ & _ & _ & _ & Hf1 & Ho1 & _).
    now rewrite Hf1, Ho1. }
  destruct Hf' as [Hf' Ho'].
  destruct (uart_read_splits_contents m _ Hf' Ho') as [H3 _].
  rewrite H1, H3, H2. apply firstn_skipn_add.
Qed.

Lemma uart_read_twice_witness :
  rr_copied (uart_read 2 scenario_c_state)
    ++ rr_copied (uart_read 3 (rr_state (uart_read 2 scenario_c_state)))
  = firstn (2 + 3) (memcpy_out (buf_mem scenario_c_state) (num_bytes scenario_c_state)).
Proof. apply uart_read_twice; vm_compute; reflexivity. Defined.

(** [uart_read( buf, 0 )] on an error-free state returns 0, copies nothing
    and keeps the count and every array cell, but still moves
    [buf_ptr_cur] back to the start of the buffer. *)
Theorem uart_read_zero (s : uart_irq_buf_type) :
  error_rx_full s = false -> error_overrun s = false ->
  rr_ret (uart_read 0 s) = Ret_count 0 /\ rr_copied (uart_read 0 s) = [] /\
  num_bytes (rr_state (uart_read 0 s)) = num_bytes s /\
  (forall i, buf_mem (rr_state (uart_read 0 s)) i = buf_mem s i) /\
  buf_ptr_cur (rr_state (uart_read 0 s)) = 0.
Proof.
  intros Hf Ho. rewrite uart_read_no_error by assumption.
  destruct (uart_read_body_fields 0 s) as (Hr & Hc & Hm & Hn & Hcur & _).
  rewrite Nat.min_0_l in Hr, Hc, Hm, Hn.
  rewrite Hr, Hc, Hm, Hn, Hcur, Nat.sub_0_r.
  repeat split. intros i. unfold memmove_down.
  now destruct (Nat.ltb i (num_bytes s)).
Qed.

Lemma uart_read_zero_witness :
  rr_ret (uart_read 0 scenario_c_state) = Ret_count 0 /\
  rr_copied (uart_read 0 scenario_c_state) = [] /\
  num_bytes (rr_state (uart_read 0 scenario_c_state)) = num_bytes scenario_c_state /\
  (forall i, buf_mem (rr_state (uart_read 0 scenario_c_state)) i = buf_mem scenario_c_state i) /\
  buf_ptr_cur (rr_state (uart_read 0 scenario_c_state)) = 0.
Proof. apply uart_read_zero; vm_compute; reflexivity. Defined.

(** Whatever the state, a [uart_read] call that runs without being
    preempted leaves both error flags clear. *)
Theorem uart_read_clears_flags (n : nat) (s : uart_irq_buf_type) :
  error_rx_full (rr_state (uart_read n s)) = false /\
  error_overrun (rr_state (uart_read n s)) = false.
Proof.
  unfold uart_read, uart_read_check.
  destruct (error_rx_full s) eqn:Hf; [split; reflexivity|].
  destruct (error_overrun s) eqn:Ho; [split; reflexivity|].
  destruct (uart_read_body_fields n s) as (_ & _ & _ & _ & _ & Hf' & Ho' & _).
  now rewrite Hf', Ho'.
Qed.

(** In every preemptive run from the initial state,
    [buf_ptr_cur <= num_bytes <= buf_sz = UART_RX_BUF_SZ]; so the handler,
    which stores only when [num_bytes < buf_sz], always writes inside
    [s_uart_rx_buf]. *)
Theorem rx_cursor_in_bounds (es : list sys_event) :
  buf_ptr_cur (cfg_buf (fst (run_sys es sys_init)))
    <= num_bytes (cfg_buf (fst (run_sys es sys_init))) /\
  num_bytes (cfg_buf (fst (run_sys es sys_init)))
    <= buf_sz (cfg_buf (fst (run_sys es sys_init))) /\
  buf_sz (cfg_buf (fst (run_sys es sys_init))) = UART_RX_BUF_SZ.
Proof.
  assert (H : forall c, bounds_inv (cfg_buf c) -> bounds_inv (cfg_buf (fst (run_sys es c)))).
  { induction es as [|e es IH]; intros c Hc; [exact Hc|].
    rewrite run_sys_cons. apply IH, bounds_inv_sys_exec, Hc. }
  apply H. unfold bounds_inv. simpl. repeat split; lia.
Qed.

(** [uart_write_msg] on a NUL-terminated string sends the first
    [strlen mod 2^16] bytes of the string (the [size_t] length is passed
    as a [uint16_t] count), then '\n' (0x0A) and '\r' (0x0D). *)
Theorem uart_write_msg_sends (msg : list Byte.byte) (tx : tx_log) :
  Forall (fun b => b <> Byte.x00) msg ->
  uart_write_msg (msg ++ [Byte.x00]) tx
  = tx ++ firstn (length msg mod 2 ^ 16) msg ++ [Byte.x0a; Byte.x0d].
Proof.
  intros Hmsg. unfold uart_write_msg, uart_write. cbn [snd].
  rewrite strlen_nul_terminated by exact Hmsg.
  assert (Hle : length msg mod 2 ^ 16 <= length msg) by apply Nat.Div0.mod_le.
  rewrite uart_write_loop_prefix by (rewrite length_app; lia).
  rewrite firstn_app.
  replace (length msg mod 2 ^ 16 - length msg) with 0 by lia.
  unfold uart_write_byte. cbn [firstn]. now rewrite app_nil_r, <- !app_assoc.
Qed.

Lemma uart_write_msg_sends_witness :
  uart_write_msg ([Byte.x68; Byte.x69] ++ [Byte.x00]) []
  = [] ++ firstn (length [Byte.x68; Byte.x69] mod 2 ^ 16) [Byte.x68; Byte.x69]
       ++ [Byte.x0a; Byte.x0d].
Proof.
  apply uart_write_msg_sends.
  repeat constructor; discriminate.
Defined.

Lemma main_loop_from (k c : nat) (tx : tx_log) :
  c < 2 ^ 16 ->
  main_loop k c tx
  = tx ++ concat (map (fun i => dec_digits 5 ((c + i) mod 2 ^ 16) [] ++ [Byte.x0a; Byte.x0d])
                      (seq 0 k)).
Proof.
  assert (H16 : 16 < 2 ^ 16) by (apply Nat.pow_gt_lin_r; lia).
  revert c tx. induction k as [|k IH]; intros c tx Hc; cbn [main_loop seq map concat];
    [now rewrite app_nil_r|].
  assert (Hc' : (c + 1) mod 2 ^ 16 < 2 ^ 16) by (apply Nat.mod_upper_bound; discriminate).
  rewrite (IH _ _ Hc'). unfold sprintf_d_u16.
  rewrite uart_write_msg_sends by (apply dec_digits_not_nul; constructor).
  pose proof (length_dec_digits 5 c []) as Hlen. cbn [length] in Hlen.
  rewrite (Nat.mod_small (length (dec_digits 5 c []))) by lia.
  rewrite firstn_all.
  rewrite Nat.add_0_r, (Nat.mod_small c) by exact Hc.
  rewrite <- seq_shift, map_map, <- !app_assoc. do 3 f_equal.
  apply (f_equal (@concat Byte.byte)). apply map_ext. intros i.
  rewrite Nat.Div0.add_mod_idemp_l. now replace (c + 1 + i) with (c + S i) by lia.
Qed.

(** From [count = 0], the [k] first passes of the main loop send, in
    order, the decimal form of [i mod 65536] followed by '\n' '\r' for
    [i = 0 .. k-1]: the printed counter wraps to 0 after 65535. *)
Theorem main_loop_prints_counter (k : nat) (tx : tx_log) :
  main_loop k 0 tx
  = tx ++ concat (map (fun i => dec_digits 5 (i mod 2 ^ 16) [] ++ [Byte.x0a; Byte.x0d])
                      (seq 0 k)).
Proof.
  assert (H16 : 16 < 2 ^ 16) by (apply Nat.pow_gt_lin_r; lia).
  rewrite main_loop_from by lia. reflexivity.
Qed.
